(** * Default configuration of the convert plugins

    A development over [plugins/convert/_config.py]: the module constants
    [BLUR_TYPES] and [BLUR_INFO], and the body of [Config.set_defaults], which
    declares the sections and options of the convert configuration through
    [add_section] and [add_item]. *)

From Stdlib Require Import String Ascii List Bool ZArith QArith Qround Qabs Lia Lqa.
Import ListNotations.

Open Scope string_scope.

(** ** Python built-ins used by the module *)

Definition LF : string := String "010" EmptyString.
Definition TAB : string := String "009" EmptyString.

(** [replace_from skip s old new]: the scan of [str.replace] over [s] for a
    non-empty [old]; [skip] counts the characters of a match that are still to
    be dropped. Occurrences are taken leftmost first and do not overlap. *)
Fixpoint replace_from (skip : nat) (s old new : string) : string :=
  match s with
  | EmptyString => EmptyString
  | String c rest =>
      match skip with
      | S k => replace_from k rest old new
      | O =>
          if prefix old s
          then new ++ replace_from (String.length old - 1) rest old new
          else String c (replace_from 0 rest old new)
      end
  end.

(** With an empty [old], Python puts [new] before every character and at the
    end. *)
Fixpoint interleave (s new : string) : string :=
  match s with
  | EmptyString => new
  | String c rest => new ++ String c (interleave rest new)
  end.

(** [s.replace(old, new)] *)
Definition str_replace (s old new : string) : string :=
  match old with
  | EmptyString => interleave s new
  | String _ _ => replace_from 0 s old new
  end.

(** [x in xs] on a list of strings (exact, case-sensitive comparison). *)
Definition str_in (x : string) (xs : list string) : bool :=
  existsb (String.eqb x) xs.

(** ** Values *)

(** The four datatypes an option is declared with: [str], [int], [float] and
    [bool]. *)
Inductive datatype : Set := Tstr | Tint | Tfloat | Tbool.

(** Numbers. A Python float literal is embedded as the decimal it is written
    as: [0.1] is [1 # 10], [25.0] is [250 # 10]. *)
Inductive number : Set :=
| Int (z : Z)
| Float (q : Q).

Inductive value : Set :=
| VStr (s : string)
| VNum (n : number)
| VBool (b : bool).

Arguments Int z%_Z.
Arguments Float q%_Q.

Abbreviation VInt z := (VNum (Int z)).
Abbreviation VFloat q := (VNum (Float q)).

(** ** Module constants *)

Definition BLUR_TYPES : list string := ["gaussian"; "normalized"; "none"].

Definition BLUR_INFO : string :=
     "The type of blending to use:" ++ LF ++ TAB
     ++ " gaussian: Blend with Gaussian filter. Slower, but often better than "
     ++ "Normalized" ++ LF ++ TAB
     ++ " normalized: Blend with Normalized box filter. Faster than Gaussian" ++ LF
     ++ TAB ++ " none: Don't perform blending".

(** The list comprehension over [_video_extensions] that gives the choices
    of the video container: each extension with its dots replaced by the
    empty string. *)
Definition video_containers (_video_extensions : list string) : list string :=
  map (fun ext => str_replace ext "." EmptyString) _video_extensions.

(** ** The calls of [Config.set_defaults] *)

(** One call on [self]. The keyword arguments of [add_item] are laid out in
    the order [section], [title], [datatype], [default], [choices], [min_max],
    [rounding], [info]; an argument the call leaves out is [None]. *)
Inductive call : Set :=
| AddSection (title info : string)
| AddItem (section title : string) (datatype : datatype) (default : value)
          (choices : option (list string)) (min_max : option (number * number))
          (rounding : option Z) (info : string).

(** The body of [set_defaults], call by call. [_video_extensions] is imported
    from [lib.utils]. *)
Definition set_defaults_calls (_video_extensions : list string) : list call :=
  (let section := "mask.box_blend" in
   [ AddSection section
         ("Options for blending the edges of the swapped box with the background "
          ++ "image");
     AddItem section "type" Tstr (VStr "gaussian")
         (Some BLUR_TYPES) None None
         BLUR_INFO;
     AddItem section "distance" Tfloat (VFloat 11.0)
         None (Some (Float 0.1, Float 25.0)) (Some 1%Z)
         ("The distance from the edges of the swap box to start blending. " ++ LF
          ++ "The distance is set as percentage of the swap box size to give the "
          ++ "number of pixels from the edge of the box. Eg: For a swap area of 256px "
          ++ "and a percentage of 4%, blending would commence 10 pixels from the edge."
          ++ LF
          ++ "Higher percentages start the blending from closer to the center of the "
          ++ "face, so will reveal more of the source face.");
     AddItem section "radius" Tfloat (VFloat 5.0)
         None (Some (Float 0.1, Float 25.0)) (Some 1%Z)
         ("Radius dictates how much blending should occur, or more specifically, "
          ++ "how far the blending will spread away from the 'distance' parameter." ++ LF
          ++ "This figure is set as a percentage of the swap box size to give the "
          ++ "radius in pixels. Eg: For a swap area of 256px and a percentage of 5%, "
          ++ "the radius would be 13 pixels" ++ LF
          ++ "NB: Higher percentage means more blending, but too high may reveal more "
          ++ "of the source face, or lead to hard lines at the border.");
     AddItem section "passes" Tint (VInt 1)
         None (Some (Int 1, Int 8)) (Some 1%Z)
         ("The number of passes to perform. Additional passes of the blending "
          ++ "algorithm can improve smoothing at a time cost. This is more useful for "
          ++ "'box' type blending." ++ LF
          ++ "Additional passes have exponentially less effect so it's not worth "
          ++ "setting this too high") ])
  ++
  (let section := "mask.mask_blend" in
   [ AddSection section
         ("Options for blending the edges between the mask and the background image");
     AddItem section "type" Tstr (VStr "normalized")
         (Some BLUR_TYPES) None None
         BLUR_INFO;
     AddItem section "radius" Tfloat (VFloat 3.0)
         None (Some (Float 0.1, Float 25.0)) (Some 1%Z)
         ("Radius dictates how much blending should occur." ++ LF
          ++ "This figure is set as a percentage of the mask diameter to give the "
          ++ "radius in pixels. Eg: for a mask with diameter 200px, a percentage of "
          ++ "6% would give a final radius of 3px." ++ LF
          ++ "Higher percentage means more blending");
     AddItem section "passes" Tint (VInt 4)
         None (Some (Int 1, Int 8)) (Some 1%Z)
         ("The number of passes to perform. Additional passes of the blending "
          ++ "algorithm can improve smoothing at a time cost. This is more useful for "
          ++ "'box' type blending." ++ LF
          ++ "Additional passes have exponentially less effect so it's not worth "
          ++ "setting this too high");
     AddItem section "erosion" Tfloat (VFloat 0.0)
         None (Some (Float (-100.0), Float 100.0)) (Some 1%Z)
         ("Erosion kernel size as a percentage of the mask radius area." ++ LF
          ++ "Positive values apply erosion which reduces the size of the swapped "
          ++ "area." ++ LF
          ++ "Negative values apply dilation which increases the swapped area") ])
  ++
  (let section := "color.color_transfer" in
   [ AddSection section
         ("Options for transfering the color distribution from the source to the "
          ++ "target image using the mean and standard deviations of the L*a*b* color "
          ++ "space." ++ LF
          ++ "This implementation is (loosely) based on to the 'Color Transfer "
          ++ "between Images paper by Reinhard et al., 2001. matching the histograms "
          ++ "between the source and destination faces.");
     AddItem section "clip" Tbool (VBool true)
         None None None
         ("Should components of L*a*b* image be scaled by np.clip before "
          ++ "converting back to BGR color space?" ++ LF
          ++ "If False then components will be min-max scaled appropriately." ++ LF
          ++ "Clipping will keep target image brightness truer to the input." ++ LF
          ++ "Scaling will adjust image brightness to avoid washed out portions in "
          ++ "the resulting color transfer that can be caused by clipping.");
     AddItem section "preserve_paper" Tbool (VBool true)
         None None None
         ("Should color transfer strictly follow methodology layed out in original "
          ++ "paper?" ++ LF
          ++ "The method does not always produce aesthetically pleasing results." ++ LF
          ++ "If False then L*a*b* components will be scaled using the reciprocal of "
          ++ "the scaling factor proposed in the paper. This method seems to produce "
          ++ "more consistently aesthetically pleasing results") ])
  ++
  (let section := "color.match_hist" in
   [ AddSection section
         ("Options for matching the histograms between the source and destination "
          ++ "faces");
     AddItem section "threshold" Tfloat (VFloat 99.0)
         None (Some (Float 90.0, Float 100.0)) (Some 1%Z)
         ("Adjust the threshold for histogram matching. Can reduce extreme colors "
          ++ "leaking in by filtering out colors at the extreme ends of the histogram "
          ++ "spectrum") ])
  ++
  (let section := "scaling.sharpen" in
   [ AddSection section
         ("Options for sharpening the face after placement");
     AddItem section "method" Tstr (VStr "unsharp_mask")
         (Some ["box"; "gaussian"; "unsharp_mask"]) None None
         ("The type of sharpening to use: " ++ LF ++ TAB
          ++ " box: Fastest, but weakest method. Uses a box filter to assess edges." ++ LF
          ++ TAB ++ " gaussian: Slower, but better than box. Uses a gaussian filter to "
          ++ "assess edges." ++ LF ++ TAB
          ++ " unsharp-mask: Slowest, but most tweakable. Uses the unsharp-mask "
          ++ "method to assess edges.");
     AddItem section "amount" Tint (VInt 150)
         None (Some (Int 100, Int 500)) (Some 1%Z)
         ("Percentage that controls the magnitude of each overshoot (how much "
          ++ "darker and how much lighter the edge borders become)." ++ LF
          ++ "This can also be thought of as how much contrast is added at the edges. "
          ++ "It does not affect the width of the edge rims.");
     AddItem section "radius" Tfloat (VFloat 0.3)
         None (Some (Float 0.1, Float 5.0)) (Some 1%Z)
         ("Affects the size of the edges to be enhanced or how wide the edge rims "
          ++ "become, so a smaller radius enhances smaller-scale detail." ++ LF
          ++ "Radius is set as a percentage of the final frame width and rounded to "
          ++ "the nearest pixel. E.g for a 1280 width frame, a 0.6 percenatage will "
          ++ "give a radius of 8px." ++ LF
          ++ "Higher radius values can cause halos at the edges, a detectable faint "
          ++ "light rim around objects. Fine detail needs a smaller radius. " ++ LF
          ++ "Radius and amount interact; reducing one allows more of the other.");
     AddItem section "threshold" Tfloat (VFloat 5.0)
         None (Some (Float 1.0, Float 10.0)) (Some 1%Z)
         ("[unsharp_mask only] Controls the minimal brightness change that will be "
          ++ "sharpened or how far apart adjacent tonal values have to be before the "
          ++ "filter does anything." ++ LF
          ++ "This lack of action is important to prevent smooth areas from becoming "
          ++ "speckled. The threshold setting can be used to sharpen more pronounced "
          ++ "edges, while leaving subtler edges untouched. " ++ LF
          ++ "Low values should sharpen more because fewer areas are excluded. " ++ LF
          ++ "Higher threshold values exclude areas of lower contrast.") ])
  ++
  (let section := "video.global" in
   [ AddSection section
         ("Options for encoding converted videos");
     AddItem section "container" Tstr (VStr "mp4")
         (Some (video_containers _video_extensions)) None None
         ("Video container to use.");
     AddItem section "codec" Tstr (VStr "libx264")
         (Some ["libx264"; "libx265"]) None None
         ("Video codec to use:" ++ LF
          ++ "libx264: H.264. A widely supported and commonly used codec." ++ LF
          ++ "libx265: H.265 / HEVC video encoder application library.") ])
  ++
  (let section := "video.libx264" in
   [ AddSection section
         ("Options for h.264 encoding");
     AddItem section "crf" Tint (VInt 23)
         None (Some (Int 0, Int 51)) (Some 1%Z)
         ("Constant Rate Factor:  0 is lossless and 51 is worst quality possible. "
          ++ "A lower value generally leads to higher quality, and a subjectively "
          ++ "sane range is 17–28. Consider 17 or 18 to be visually lossless or "
          ++ "nearly so; it should look the same or nearly the same as the input but "
          ++ "it isn't technically lossless." ++ LF
          ++ "The range is exponential, so increasing the CRF value +6 results in "
          ++ "roughly half the bitrate / file size, while -6 leads to roughly twice "
          ++ "the bitrate." ++ LF
          ++ "Choose the highest CRF value that still provides an acceptable quality. "
          ++ "If the output looks good, then try a higher value. If it looks bad, "
          ++ "choose a lower value.");
     AddItem section "preset" Tstr (VStr "medium")
         (Some ["ultrafast"; "superfast"; "veryfast"; "faster"; "fast"; "medium"; "slow"; "slower"; "veryslow"]) None None
         ("A preset is a collection of options that will provide a certain "
          ++ "encoding speed to compression ratio. A slower preset will provide "
          ++ "better compression (compression is quality per filesize). Use the "
          ++ "slowest preset that you have patience for");
     AddItem section "tune" Tstr (VStr "none")
         (Some ["none"; "film"; "animation"; "grain"; "stillimage"; "fastdecode"; "zerolatency"]) None None
         ("Change settings based upon the specifics of your input:" ++ LF
          ++ "film: use for high quality movie content; lowers deblocking." ++ LF ++ TAB
          ++ "animation: good for cartoons; uses higher deblocking and more reference "
          ++ "frames." ++ LF ++ TAB
          ++ "grain: preserves the grain structure in old, grainy film material." ++ LF
          ++ TAB ++ "stillimage: good for slideshow-like content." ++ LF ++ TAB
          ++ "fastdecode: allows faster decoding by disabling certain filters." ++ LF
          ++ TAB ++ "zerolatency: good for fast encoding and low-latency streaming.");
     AddItem section "profile" Tstr (VStr "auto")
         (Some ["auto"; "baseline"; "main"; "high"; "high10"; "high422"; "high444"]) None None
         ("Limit the output to a specific H.264 profile. Don't change this unless "
          ++ "your target device only supports a certain profile.");
     AddItem section "level" Tstr (VStr "auto")
         (Some ["auto"; "1"; "1b"; "1.1"; "1.2"; "1.3"; "2"; "2.1"; "2.2"; "3"; "3.1"; "3.2"; "4"; "4.1"; "4.2"; "5"; "5.1"; "5.2"; "6"; "6.1"; "6.2"]) None None
         ("Set the encoder level, Don't change this unless your target device only "
          ++ "supports a certain level.") ])
  ++
  (let section := "video.libx265" in
   [ AddSection section
         ("Options for h.265 / HEVC encoding");
     AddItem section "crf" Tint (VInt 28)
         None (Some (Int 0, Int 51)) (Some 1%Z)
         ("Constant Rate Factor:  0 is lossless and 51 is worst quality possible. "
          ++ "A lower value generally leads to higher quality, and a subjectively "
          ++ "sane range is 17–28. Consider 17 or 18 to be visually lossless or "
          ++ "nearly so; it should look the same or nearly the same as the input but "
          ++ "it isn't technically lossless." ++ LF
          ++ "The range is exponential, so increasing the CRF value +6 results in "
          ++ "roughly half the bitrate / file size, while -6 leads to roughly twice "
          ++ "the bitrate." ++ LF
          ++ "Choose the highest CRF value that still provides an acceptable quality. "
          ++ "If the output looks good, then try a higher value. If it looks bad, "
          ++ "choose a lower value.");
     AddItem section "preset" Tstr (VStr "medium")
         (Some ["ultrafast"; "superfast"; "veryfast"; "faster"; "fast"; "medium"; "slow"; "slower"; "veryslow"]) None None
         ("A preset is a collection of options that will provide a certain "
          ++ "encoding speed to compression ratio. A slower preset will provide "
          ++ "better compression (compression is quality per filesize). Use the "
          ++ "slowest preset that you have patience for");
     AddItem section "tune" Tstr (VStr "none")
         (Some ["none"; "grain"; "fastdecode"; "zerolatency"]) None None
         ("Change settings based upon the specifics of your input:" ++ LF
          ++ "grain: preserves the grain structure in old, grainy film material." ++ LF
          ++ TAB ++ "fastdecode: allows faster decoding by disabling certain filters."
          ++ LF ++ TAB ++ "zerolatency: good for fast encoding and low-latency streaming.") ]).

(** ** The registry

    [Config] inherits [add_section], [add_item] and every operation on the
    declared options from [lib.config.FaceswapConfig]. That class is not part
    of [plugins/convert/_config.py]; its data and operations are modelled
    here from the specification of the configuration registry. *)

(** Modelled from the spec: an option of the data model, as [FaceswapConfig]
    (lib.config) keeps it: the arguments of [add_item] and the current value. *)
Record item : Set := mk_item {
  item_title : string;
  item_datatype : datatype;
  item_default : value;
  item_choices : option (list string);
  item_min_max : option (number * number);
  item_rounding : option Z;
  item_info : string;
  item_value : value
}.

(** Modelled from the spec: a section of the data model, with its options in
    declaration order. *)
Record config_section : Set := mk_section {
  sec_title : string;
  sec_info : string;
  sec_items : list item
}.

(** Modelled from the spec: the registry of [lib.config.FaceswapConfig], an
    ordered collection of sections, each owning an ordered collection of
    options. *)
Definition registry : Set := list config_section.

(** Modelled from the spec: the schema-definition errors of [add_section] and
    [add_item], one per precondition. *)
Inductive schema_error : Set :=
| DuplicateSectionError (title : string)
| SectionNotRegistered (section : string)
| DuplicateItem (section title : string)
| ChoicesWithMinMax (section title : string)
| DefaultNotInChoices (section title : string)
| MinMaxNotNumeric (section title : string)
| DefaultOutOfRange (section title : string).

(** Modelled from the spec: the section registered under a title. *)
Definition find_section (self : registry) (section : string)
  : option config_section :=
  find (fun sec => sec_title sec =? section) self.

(** Modelled from the spec: the option registered under a [(section, title)]
    pair. *)
Definition find_item (self : registry) (section title : string) : option item :=
  match find_section self section with
  | Some sec => find (fun it => item_title it =? title) (sec_items sec)
  | None => None
  end.

(** Modelled from the spec: [FaceswapConfig.add_section(title, info)], which
    registers a new section and fails when the title already exists. *)
Definition add_section (self : registry) (title info : string)
  : schema_error + registry :=
  match find_section self title with
  | Some _ => inl (DuplicateSectionError title)
  | None => inr (self ++ [mk_section title info []])%list
  end.

(** The rational a number stands for. *)
Definition to_Q (n : number) : Q :=
  match n with
  | Int z => inject_Z z
  | Float q => q
  end.

(** Numbers are compared by what they stand for, an integer with a float as
    Python does. *)
Definition num_leb (a b : number) : bool := Qle_bool (to_Q a) (to_Q b).
Definition num_ltb (a b : number) : bool := negb (num_leb b a).

(** [lo <= n <= hi] *)
Definition in_range (lo hi n : number) : bool := num_leb lo n && num_leb n hi.

(** The datatype is [int] or [float]. *)
Definition numeric (dt : datatype) : bool :=
  match dt with
  | Tint | Tfloat => true
  | Tstr | Tbool => false
  end.

(** Modelled from the spec: the default is a member of the choices. *)
Definition default_in_choices (default : value) (choices : list string) : bool :=
  match default with
  | VStr s => str_in s choices
  | _ => false
  end.

(** Modelled from the spec: the default lies within [[lo, hi]], bounds
    included. *)
Definition default_in_range (default : value) (lo hi : number) : bool :=
  match default with
  | VNum n => in_range lo hi n
  | _ => false
  end.

(** Modelled from the spec: the preconditions of [add_item], in the order the
    spec lists them. The datatype is one of the four supported kinds by its
    type; choices and range together are refused at declaration. *)
Definition add_item_check (self : registry) (section title : string)
    (dt : datatype) (default : value) (choices : option (list string))
    (min_max : option (number * number)) : option schema_error :=
  match find_section self section with
  | None => Some (SectionNotRegistered section)
  | Some sec =>
      if existsb (fun it => item_title it =? title) (sec_items sec)
      then Some (DuplicateItem section title)
      else
        match choices, min_max with
        | Some _, Some _ => Some (ChoicesWithMinMax section title)
        | Some l, None =>
            if default_in_choices default l then None
            else Some (DefaultNotInChoices section title)
        | None, Some (lo, hi) =>
            if negb (numeric dt) then Some (MinMaxNotNumeric section title)
            else if default_in_range default lo hi then None
            else Some (DefaultOutOfRange section title)
        | None, None => None
        end
  end.

(** Modelled from the spec: the option joins the options of its section, after
    those declared before it. *)
Definition insert_item (self : registry) (section : string) (it : item)
  : registry :=
  map (fun sec =>
         if sec_title sec =? section
         then mk_section (sec_title sec) (sec_info sec) (sec_items sec ++ [it])%list
         else sec) self.

(** Modelled from the spec: [FaceswapConfig.add_item(section, title, datatype,
    default, choices, min_max, rounding, info)], which registers an option
    with its default as current value, or fails with a schema-definition
    error when a precondition is violated. *)
Definition add_item (self : registry) (section title : string) (dt : datatype)
    (default : value) (choices : option (list string))
    (min_max : option (number * number)) (rounding : option Z) (info : string)
  : schema_error + registry :=
  match add_item_check self section title dt default choices min_max with
  | Some e => inl e
  | None =>
      inr (insert_item self section
             (mk_item title dt default choices min_max rounding info default))
  end.

(** One call of [set_defaults] on [self]. *)
Definition exec (self : registry) (c : call) : schema_error + registry :=
  match c with
  | AddSection title info => add_section self title info
  | AddItem section title dt default choices min_max rounding info =>
      add_item self section title dt default choices min_max rounding info
  end.

(** The calls are made in order; the first schema-definition error is raised
    out of [set_defaults] and no later call is made. *)
Fixpoint run (cs : list call) (self : registry) : schema_error + registry :=
  match cs with
  | [] => inr self
  | c :: cs' =>
      match exec self c with
      | inl e => inl e
      | inr self' => run cs' self'
      end
  end.

(** [Config.set_defaults(self)]: the calls of its body, made on [self]. *)
Definition set_defaults (_video_extensions : list string) (self : registry)
  : schema_error + registry :=
  run (set_defaults_calls _video_extensions) self.

(** Modelled from the spec: [FaceswapConfig.get(section, title)], the current
    value of an option; [None] stands for the lookup error on an unregistered
    pair. *)
Definition get (self : registry) (section title : string) : option value :=
  option_map item_value (find_item self section title).

(** Modelled from the spec: [FaceswapConfig.section_items(section)], the
    options of a section in declaration order (none for a section that is
    not registered). *)
Definition section_items (self : registry) (section : string) : list item :=
  match find_section self section with
  | Some sec => sec_items sec
  | None => []
  end.

(** *** Validation of an assignment *)

(** Modelled from the spec: why [set] rejects an assignment. *)
Inductive set_error : Set := LookupError | ConversionError | ChoiceError.

(** Modelled from the spec: what an assignment comes to. The value is
    committed as validated, it is committed after being coerced to a bound of
    the range, or the assignment is rejected and the prior value retained. *)
Inductive outcome : Set :=
| Committed (v : value)
| Clamped (v original : value)
| Rejected (e : set_error).

(** Modelled from the spec: the level an outcome is reported at. *)
Inductive level : Set := Warning | Error.

(** Modelled from the spec: a coercion to a bound is reported as a warning, a
    rejection as an error. *)
Definition report (o : outcome) : option level :=
  match o with
  | Committed _ => None
  | Clamped _ _ => Some Warning
  | Rejected _ => Some Error
  end.

(** Modelled from the spec: conversion of a raw value to the datatype of the
    option. A value of the datatype itself converts, and so does an integer
    where a float is expected; anything else is a conversion failure. *)
Definition coerce (dt : datatype) (raw : value) : option value :=
  match dt, raw with
  | Tstr, VStr s => Some (VStr s)
  | Tint, VInt z => Some (VInt z)
  | Tfloat, VFloat q => Some (VFloat q)
  | Tfloat, VInt z => Some (VFloat (inject_Z z))
  | Tbool, VBool b => Some (VBool b)
  | _, _ => None
  end.

(** Modelled from the spec: a choice is matched exactly, case included. *)
Definition choice_ok (choices : option (list string)) (v : value) : bool :=
  match choices with
  | None => true
  | Some l =>
      match v with
      | VStr s => str_in s l
      | _ => false
      end
  end.

(** Modelled from the spec: a number outside the range is coerced to the
    nearest bound; the flag tells that it was. *)
Definition clamp (min_max : option (number * number)) (v : value)
  : value * bool :=
  match min_max, v with
  | Some (lo, hi), VNum n =>
      if num_ltb n lo then (VNum lo, true)
      else if num_ltb hi n then (VNum hi, true)
      else (v, false)
  | _, _ => (v, false)
  end.

(** Modelled from the spec: [rounding] is a step size for an integer option
    and a precision, the number of decimal places, for a float option. *)
Definition step (dt : datatype) (r : Z) : option Q :=
  match dt with
  | Tint => if (0 <? r)%Z then Some (inject_Z r) else None
  | Tfloat => if (0 <=? r)%Z then Some (1 # Z.to_pos (10 ^ r)) else None
  | Tstr | Tbool => None
  end.

(** Modelled from the spec: the [k]-th point of the grid, [k * r] for an
    integer option and the decimal [k / 10^r], with its [r] places, for a
    float option. *)
Definition grid (dt : datatype) (r k : Z) : number :=
  match dt with
  | Tfloat => Float (k # Z.to_pos (10 ^ r))
  | _ => Int (k * r)
  end.

(** Modelled from the spec: the index of the grid point nearest to [x]
    (halves go up). *)
Definition nearest_index (dt : datatype) (r : Z) (x : Q) : option Z :=
  match step dt r with
  | Some s => Some (Qfloor (x / s + (1 # 2)))
  | None => None
  end.

(** Modelled from the spec: the nearest grid point that lies within the
    range, if the range holds one next to [x]. *)
Definition snap (dt : datatype) (min_max : option (number * number)) (r : Z)
    (x : Q) : option number :=
  match nearest_index dt r x with
  | None => None
  | Some k =>
      match min_max with
      | None => Some (grid dt r k)
      | Some (lo, hi) =>
          if in_range lo hi (grid dt r k) then Some (grid dt r k)
          else if num_ltb (grid dt r k) lo
          then if in_range lo hi (grid dt r (k + 1))
               then Some (grid dt r (k + 1)) else None
          else if in_range lo hi (grid dt r (k - 1))
               then Some (grid dt r (k - 1)) else None
      end
  end.

(** Modelled from the spec: a number is snapped to the grid when the option
    has a rounding and the range holds a grid point next to it. *)
Definition round_value (dt : datatype) (min_max : option (number * number))
    (rounding : option Z) (v : value) : value :=
  match rounding, v with
  | Some r, VNum n =>
      match snap dt min_max r (to_Q n) with
      | Some g => VNum g
      | None => v
      end
  | _, _ => v
  end.

(** Modelled from the spec: the validation of [set]. Type coercion, then the
    choices, then the range, then the rounding. *)
Definition validate (it : item) (raw : value) : outcome :=
  match coerce (item_datatype it) raw with
  | None => Rejected ConversionError
  | Some v =>
      if negb (choice_ok (item_choices it) v) then Rejected ChoiceError
      else
        let (c, clamped) := clamp (item_min_max it) v in
        let w := round_value (item_datatype it) (item_min_max it)
                   (item_rounding it) c in
        if clamped then Clamped w raw else Committed w
  end.

(** Modelled from the spec: the option with a new current value. *)
Definition with_value (it : item) (v : value) : item :=
  mk_item (item_title it) (item_datatype it) (item_default it)
    (item_choices it) (item_min_max it) (item_rounding it) (item_info it) v.

(** Modelled from the spec: the registry with [f] applied to every option,
    [f] being told the title of the section. *)
Definition map_items (f : string -> item -> item) (self : registry) : registry :=
  map (fun sec =>
         mk_section (sec_title sec) (sec_info sec)
           (map (f (sec_title sec)) (sec_items sec))) self.

(** Modelled from the spec: the registry with [v] stored as the current value
    of [(section, title)]. *)
Definition set_value (self : registry) (section title : string) (v : value)
  : registry :=
  map_items (fun s it =>
               if (s =? section) && (item_title it =? title)
               then with_value it v else it) self.

(** Modelled from the spec: [FaceswapConfig.set(section, title, value)],
    which validates and stores an override and returns what was committed. *)
Definition set (self : registry) (section title : string) (raw : value)
  : registry * outcome :=
  match find_item self section title with
  | None => (self, Rejected LookupError)
  | Some it =>
      match validate it raw with
      | Committed v => (set_value self section title v, Committed v)
      | Clamped v original =>
          (set_value self section title v, Clamped v original)
      | Rejected e => (self, Rejected e)
      end
  end.

(** *** Persistence *)

(** Modelled from the spec: the options of the registry with the title of
    their section, in declaration order. *)
Definition options (self : registry) : list (string * item) :=
  flat_map (fun sec => map (fun it => (sec_title sec, it)) (sec_items sec)) self.

(** Modelled from the spec: the key of an option in the persisted document,
    [section.title]. *)
Definition key (section title : string) : string := section ++ "." ++ title.


(** Modelled from the spec: the option a key of the document stands for. *)
Definition find_key (self : registry) (k : string) : option (string * string) :=
  option_map (fun p => (fst p, item_title (snd p)))
    (find (fun p => key (fst p) (item_title (snd p)) =? k) (options self)).

(** Modelled from the spec: what [load] reports for an entry, an unknown key
    or the outcome of the assignment. *)
Inductive load_report : Set :=
| UnknownKey (k : string)
| Assigned (k : string) (o : outcome).

(** Modelled from the spec: the registry with every option back at its
    default. *)
Definition restore_defaults (self : registry) : registry :=
  map_items (fun _ it => with_value it (item_default it)) self.

(** Modelled from the spec: [load] on one entry of the document. An unknown
    key is reported and skipped, a known one is assigned as [set] does. *)
Definition load_entry (st : registry * list load_report) (e : string * value)
  : registry * list load_report :=
  match find_key (fst st) (fst e) with
  | None => (fst st, snd st ++ [UnknownKey (fst e)])%list
  | Some (s, t) =>
      let (self', o) := set (fst st) s t (snd e) in
      (self', snd st ++ [Assigned (fst e) o])%list
  end.

(** Modelled from the spec: [FaceswapConfig.load(raw)]. Every option starts
    from its default; each key of the document is assigned with the
    validation of [set]; an unknown key is reported and skipped. *)
Definition load (self : registry) (raw : list (string * value))
  : registry * list load_report :=
  fold_left load_entry raw (restore_defaults self, []).

(** The registries the program can be in: the one [set_defaults] builds at
    startup, and those that calls of [set] lead to from there. *)
Inductive reachable (_video_extensions : list string) : registry -> Prop :=
| reach_defaults self :
    set_defaults _video_extensions [] = inr self ->
    reachable _video_extensions self
| reach_set self section title raw :
    reachable _video_extensions self ->
    reachable _video_extensions (fst (set self section title raw)).

(** ** Readings of the declarations *)

(** The titles of the [add_section] calls, in order. *)
Definition section_titles (cs : list call) : list string :=
  flat_map (fun c => match c with
                     | AddSection title _ => [title]
                     | AddItem _ _ _ _ _ _ _ _ => []
                     end) cs.

(** The [(section, title)] pairs of the [add_item] calls, in order. *)
Definition item_pairs (cs : list call) : list (string * string) :=
  flat_map (fun c => match c with
                     | AddSection _ _ => []
                     | AddItem section title _ _ _ _ _ _ => [(section, title)]
                     end) cs.

(** The titles of the [add_item] calls made for [section], in order. *)
Definition titles_for (section : string) (cs : list call) : list string :=
  flat_map (fun c => match c with
                     | AddSection _ _ => []
                     | AddItem s title _ _ _ _ _ _ =>
                         if s =? section then [title] else []
                     end) cs.

(** The choices an [add_item] call of [cs] declares for [(section, title)]. *)
Fixpoint declared_choices (cs : list call) (section title : string)
  : option (list string) :=
  match cs with
  | [] => None
  | AddItem s t _ _ choices _ _ _ :: cs' =>
      if (s =? section) && (t =? title) then choices
      else declared_choices cs' section title
  | AddSection _ _ :: cs' => declared_choices cs' section title
  end.

(** The default of a declaration satisfies the constraint declared with it. *)
Definition default_valid (c : call) : Prop :=
  match c with
  | AddSection _ _ => True
  | AddItem _ _ _ default choices min_max _ _ =>
      (forall l, choices = Some l -> exists s, default = VStr s /\ In s l) /\
      (forall lo hi, min_max = Some (lo, hi) ->
         exists n, default = VNum n /\
                   (to_Q lo <= to_Q n)%Q /\ (to_Q n <= to_Q hi)%Q)
  end.

Definition default_validb (c : call) : bool :=
  match c with
  | AddSection _ _ => true
  | AddItem _ _ _ default choices min_max _ _ =>
      match choices with
      | Some l => default_in_choices default l
      | None => true
      end &&
      match min_max with
      | Some (lo, hi) => default_in_range default lo hi
      | None => true
      end
  end.

(** Choices and range are never declared together, a range only on a numeric
    option, and neither of them on a boolean option. *)
Definition constraint_shape (c : call) : Prop :=
  match c with
  | AddSection _ _ => True
  | AddItem _ _ dt _ choices min_max _ _ =>
      (choices = None \/ min_max = None) /\
      (min_max <> None -> dt = Tint \/ dt = Tfloat) /\
      (dt = Tbool -> choices = None /\ min_max = None)
  end.

Definition constraint_shapeb (c : call) : bool :=
  match c with
  | AddSection _ _ => true
  | AddItem _ _ dt _ choices min_max _ _ =>
      match choices, min_max with
      | Some _, Some _ => false
      | Some _, None => negb (match dt with Tbool => true | _ => false end)
      | None, Some _ => numeric dt
      | None, None => true
      end
  end.

(** The [(section, title)] pairs of the options declared with datatype
    [bool]. *)
Definition bool_options (cs : list call) : list (string * string) :=
  flat_map (fun c => match c with
                     | AddItem section title Tbool _ _ _ _ _ => [(section, title)]
                     | _ => []
                     end) cs.

(** Every [add_item] call of [cs] names a section that one of the calls made
    before it (those of [cs] or the titles [seen] beforehand) registered. *)
Fixpoint sections_first (seen : list string) (cs : list call) : bool :=
  match cs with
  | [] => true
  | AddSection title _ :: cs' => sections_first (title :: seen) cs'
  | AddItem section _ _ _ _ _ _ _ :: cs' =>
      str_in section seen && sections_first seen cs'
  end.

(** [s] with every occurrence of the character [c] removed. *)
Fixpoint remove_char (c : ascii) (s : string) : string :=
  match s with
  | EmptyString => EmptyString
  | String a rest =>
      if Ascii.eqb a c then remove_char c rest
      else String a (remove_char c rest)
  end.

(** The registry without the checks of [add_section] and [add_item]: what
    [run] builds when every call succeeds. *)
Fixpoint install (cs : list call) (self : registry) : registry :=
  match cs with
  | [] => self
  | AddSection title info :: cs' =>
      install cs' (self ++ [mk_section title info []])%list
  | AddItem section title dt default choices min_max rounding info :: cs' =>
      install cs'
        (insert_item self section
           (mk_item title dt default choices min_max rounding info default))
  end.

(** The value an option holds once an assignment has come to [o]. *)
Definition value_after (o : outcome) (prior : value) : value :=
  match o with
  | Committed v => v
  | Clamped v _ => v
  | Rejected _ => prior
  end.




(** The calls before and after the declaration of the video container, the
    one call whose arguments depend on [_video_extensions]. *)
Definition calls_before : list call := firstn 21 (set_defaults_calls []).
Definition calls_after : list call := skipn 22 (set_defaults_calls []).

Definition container_call (_video_extensions : list string) : call :=
  AddItem "video.global" "container" Tstr (VStr "mp4")
    (Some (video_containers _video_extensions)) None None
    "Video container to use.".

(** The registry [set_defaults] builds on a fresh [Config]. *)
Definition schema (_video_extensions : list string) : registry :=
  install (set_defaults_calls _video_extensions) [].

(** A value [_video_extensions] can have, to run the declarations on. *)
Definition sample_extensions : list string :=
  [".avi"; ".flv"; ".mkv"; ".mov"; ".mp4"; ".mpeg"; ".webm"].

(** No element of [l] occurs twice, for an equality test [eqb]. *)
Fixpoint distinctb {A : Type} (eqb : A -> A -> bool) (l : list A) : bool :=
  match l with
  | [] => true
  | x :: rest => negb (existsb (eqb x) rest) && distinctb eqb rest
  end.

(** Equality of [(section, title)] pairs. *)
Definition pair_eqb (a b : string * string) : bool :=
  (fst a =? fst b) && (snd a =? snd b).






(** What [load] does to one option when it reads the entry [(k, raw)]. *)
Definition assign (k : string) (raw : value) (s : string) (it : item) : item :=
  if key s (item_title it) =? k
  then with_value it (value_after (validate it raw) (item_value it))
  else it.




(** ** Further readings of the declarations and of [str.replace] *)

(** [s] without its first [n] characters. *)
Fixpoint drop (n : nat) (s : string) : string :=
  match n, s with
  | O, _ => s
  | S k, EmptyString => EmptyString
  | S k, String _ rest => drop k rest
  end.

(** [old] occurs nowhere in [s]. *)
Fixpoint absent (old s : string) : bool :=
  match s with
  | EmptyString => true
  | String _ rest => negb (prefix old s) && absent old rest
  end.


(** What an [add_item] call of [cs] declares for [(section, title)]: the
    datatype, the default, the choices, the range and the rounding. *)
Fixpoint declaration (cs : list call) (section title : string)
  : option (datatype * value * option (list string)
            * option (number * number) * option Z) :=
  match cs with
  | [] => None
  | AddItem s t dt default choices min_max rounding _ :: cs' =>
      if (s =? section) && (t =? title)
      then Some (dt, default, choices, min_max, rounding)
      else declaration cs' section title
  | AddSection _ _ :: cs' => declaration cs' section title
  end.

(** The default and the constraints of a declaration are those of its
    datatype: a [str] option has a [str] default and choices; a [bool] option
    a [bool] default; an [int] or [float] option a default and a range of
    its own kind, the lower bound below the upper, and a positive rounding;
    a range or a rounding goes with no other datatype. *)
Definition well_typed (c : call) : Prop :=
  match c with
  | AddSection _ _ => True
  | AddItem _ _ dt default choices min_max rounding _ =>
      match dt with
      | Tstr =>
          (exists s, default = VStr s) /\ (exists l, choices = Some l)
          /\ min_max = None /\ rounding = None
      | Tbool =>
          (exists b, default = VBool b) /\ choices = None
          /\ min_max = None /\ rounding = None
      | Tint =>
          exists x lo hi r,
            default = VInt x /\ min_max = Some (Int lo, Int hi)
            /\ rounding = Some r /\ choices = None
            /\ (lo < hi)%Z /\ (0 < r)%Z
      | Tfloat =>
          exists x lo hi r,
            default = VFloat x /\ min_max = Some (Float lo, Float hi)
            /\ rounding = Some r /\ choices = None
            /\ (lo < hi)%Q /\ (0 < r)%Z
      end
  end.

Definition well_typedb (c : call) : bool :=
  match c with
  | AddSection _ _ => true
  | AddItem _ _ dt default choices min_max rounding _ =>
      match dt, default, choices, min_max, rounding with
      | Tstr, VStr _, Some _, None, None => true
      | Tbool, VBool _, None, None, None => true
      | Tint, VInt _, None, Some (Int lo, Int hi), Some r =>
          (lo <? hi)%Z && (0 <? r)%Z
      | Tfloat, VFloat _, None, Some (Float lo, Float hi), Some r =>
          negb (Qle_bool hi lo) && (0 <? r)%Z
      | _, _, _, _, _ => false
      end
  end.

(** The choices a declaration writes out are not empty and name no choice
    twice. The choices of the video container are computed, not written
    out. *)
Definition choices_listed (c : call) : Prop :=
  match c with
  | AddSection _ _ => True
  | AddItem section title _ _ choices _ _ _ =>
      forall l, choices = Some l ->
                (section, title) <> ("video.global", "container") ->
                l <> [] /\ NoDup l
  end.

Definition choices_listedb (c : call) : bool :=
  match c with
  | AddSection _ _ => true
  | AddItem section title _ _ choices _ _ _ =>
      match choices with
      | None => true
      | Some l =>
          pair_eqb (section, title) ("video.global", "container")
          || (negb (match l with [] => true | _ => false end)
              && distinctb String.eqb l)
      end
  end.

(** An extension as [lib.utils] writes them: a dot, then a name that holds
    no dot. *)
Definition dotted (ext : string) : Prop :=
  exists name, ext = String "." name /\ absent "." name = true.

(** Every [add_item] call names the section that the latest [add_section]
    call before it registered: the calls come in blocks, a section and then
    its options. *)
Fixpoint in_blocks (current : option string) (cs : list call) : bool :=
  match cs with
  | [] => true
  | AddSection title _ :: cs' => in_blocks (Some title) cs'
  | AddItem section _ _ _ _ _ _ _ :: cs' =>
      match current with
      | Some title => (section =? title) && in_blocks current cs'
      | None => false
      end
  end.

(** The title of the latest [add_section] call of [cs]. *)
Definition latest_section (cs : list call) : option string :=
  last (map Some (section_titles cs)) None.

(** * Properties *)

Lemma calls_split exts :
  set_defaults_calls exts = (calls_before ++ container_call exts :: calls_after)%list.
Proof. reflexivity. Qed.

Lemma str_in_In x l : str_in x l = true <-> In x l.
Proof.
  unfold str_in. rewrite existsb_exists. split.
  - intros [y [Hy E]]. apply String.eqb_eq in E. now subst.
  - intros H. exists x. split; [assumption | apply String.eqb_refl].
Qed.

Lemma in_range_iff lo hi n :
  in_range lo hi n = true <-> (to_Q lo <= to_Q n)%Q /\ (to_Q n <= to_Q hi)%Q.
Proof.
  unfold in_range, num_leb. rewrite andb_true_iff, !Qle_bool_iff. tauto.
Qed.

Lemma default_validb_sound c : default_validb c = true -> default_valid c.
Proof.
  destruct c as [|s t dt d ch mm r i]; cbn; [trivial|].
  rewrite andb_true_iff. intros [Hc Hm]. split.
  - intros l ->. destruct d as [x| |]; cbn in Hc; try discriminate.
    exists x. split; [reflexivity | now apply str_in_In].
  - intros lo hi ->. destruct d as [|n|]; cbn in Hm; try discriminate.
    exists n. split; [reflexivity | now apply in_range_iff].
Qed.

Lemma Forall_default_valid cs :
  forallb default_validb cs = true -> Forall default_valid cs.
Proof.
  rewrite forallb_forall, Forall_forall.
  intros H c Hc. apply default_validb_sound. now apply H.
Qed.

(** C1. The default of every option that [set_defaults] declares satisfies
    the constraint declared with it: it is one of the choices when the
    option has choices, and it lies within [[lo, hi]], bounds included, when
    the option has a range. The choices of the video container are computed
    from [_video_extensions]; the default ["mp4"] is one of them when an
    extension gives ["mp4"] once its dots are removed. *)
Theorem defaults_satisfy_constraints (_video_extensions : list string) :
  In "mp4" (video_containers _video_extensions) ->
  Forall default_valid (set_defaults_calls _video_extensions).
Proof.
  intros Hmp4. rewrite calls_split.
  apply Forall_app. split; [|constructor].
  - apply Forall_default_valid. vm_compute. reflexivity.
  - apply default_validb_sound. unfold container_call, default_validb.
    rewrite andb_true_r. now apply str_in_In.
  - apply Forall_default_valid. vm_compute. reflexivity.
Qed.

Lemma defaults_satisfy_constraints_sample :
  In "mp4" (video_containers sample_extensions)
  /\ Forall default_valid (set_defaults_calls sample_extensions).
Proof.
  assert (H : In "mp4" (video_containers sample_extensions))
    by (apply str_in_In; vm_compute; reflexivity).
  split; [exact H | exact (defaults_satisfy_constraints sample_extensions H)].
Defined.

Lemma constraint_shapeb_sound c : constraint_shapeb c = true -> constraint_shape c.
Proof.
  destruct c as [|s t dt d ch mm r i]; cbn; [trivial|].
  destruct ch as [l|], mm as [[lo hi]|], dt; cbn; intros H;
    try discriminate H; repeat split; intros; try congruence; auto.
Qed.

(** C7. No option of [set_defaults] is declared with choices and a range
    together; a range is declared on integer and float options only; a
    boolean option has neither; and the boolean options are [clip] and
    [preserve_paper] of [color.color_transfer]. *)
Theorem constraints_are_exclusive (_video_extensions : list string) :
  Forall constraint_shape (set_defaults_calls _video_extensions)
  /\ bool_options (set_defaults_calls _video_extensions)
     = [("color.color_transfer", "clip");
        ("color.color_transfer", "preserve_paper")].
Proof.
  split; [|reflexivity].
  apply Forall_forall. intros c Hc. apply constraint_shapeb_sound.
  revert c Hc. apply forallb_forall. vm_compute. reflexivity.
Qed.

Lemma replace_dot s : str_replace s "." EmptyString = remove_char "." s.
Proof.
  unfold str_replace. induction s as [|a s IH]; [reflexivity|].
  cbn [replace_from remove_char prefix String.length Nat.sub].
  destruct (ascii_dec "." a) as [E|E].
  - subst a. rewrite Ascii.eqb_refl.
    replace (prefix EmptyString s) with true by (destruct s; reflexivity).
    exact IH.
  - destruct (Ascii.eqb a ".") eqn:F.
    + apply Ascii.eqb_eq in F. congruence.
    + now rewrite IH.
Qed.

Lemma remove_char_absent c s : ~ In c (list_ascii_of_string (remove_char c s)).
Proof.
  induction s as [|a s IH]; cbn; [tauto|].
  destruct (Ascii.eqb a c) eqn:F; [assumption|].
  cbn. intros [E|E]; [|tauto].
  subst a. now rewrite Ascii.eqb_refl in F.
Qed.

Lemma video_containers_remove exts :
  video_containers exts = map (remove_char ".") exts.
Proof. unfold video_containers. apply map_ext. intros. apply replace_dot. Qed.

(** C10. The choices declared for [container] of [video.global] are the
    entries of [_video_extensions], position by position, with every dot
    removed; no choice contains a dot. *)
Theorem container_choices_without_dots (_video_extensions : list string) :
  exists l,
    declared_choices (set_defaults_calls _video_extensions)
      "video.global" "container" = Some l
    /\ length l = length _video_extensions
    /\ (forall i ext, nth_error _video_extensions i = Some ext ->
          nth_error l i = Some (remove_char "." ext))
    /\ (forall v, In v l -> ~ In "."%char (list_ascii_of_string v)).
Proof.
  exists (video_containers _video_extensions).
  split; [reflexivity|].
  rewrite video_containers_remove.
  split; [apply length_map|]. split.
  - intros i ext H. now apply map_nth_error.
  - intros v H. apply in_map_iff in H. destruct H as [ext [<- _]].
    apply remove_char_absent.
Qed.

Lemma distinctb_NoDup {A : Type} (eqb : A -> A -> bool) (l : list A) :
  (forall x y, eqb x y = true <-> x = y) ->
  distinctb eqb l = true -> NoDup l.
Proof.
  intros Heq. induction l as [|x l IH]; cbn; [constructor|].
  rewrite andb_true_iff, negb_true_iff. intros [Hx Hl].
  constructor; [|auto].
  intros Hin. assert (E : existsb (eqb x) l = true).
  { apply existsb_exists. exists x. split; [assumption | now apply Heq]. }
  congruence.
Qed.

Lemma pair_eqb_eq a b : pair_eqb a b = true <-> a = b.
Proof.
  destruct a as [a1 a2], b as [b1 b2]. unfold pair_eqb. cbn.
  rewrite andb_true_iff, !String.eqb_eq. split.
  - intros [-> ->]. reflexivity.
  - intros E. inversion E. tauto.
Qed.

Lemma section_titles_app a b :
  section_titles (a ++ b) = (section_titles a ++ section_titles b)%list.
Proof. unfold section_titles. apply flat_map_app. Qed.

Lemma sections_first_sound cs : forall seen,
  sections_first seen cs = true ->
  forall pre s t dt d ch mm r i post,
    cs = (pre ++ AddItem s t dt d ch mm r i :: post)%list ->
    In s seen \/ In s (section_titles pre).
Proof.
  induction cs as [|c cs IH]; intros seen H pre s t dt d ch mm r i post E.
  - destruct pre; discriminate E.
  - destruct pre as [|p pre]; cbn in E; injection E as -> ->.
    + cbn in H. apply andb_true_iff in H. left. apply str_in_In. tauto.
    + destruct p as [title info|s' t' dt' d' ch' mm' r' i']; cbn in H.
      * specialize (IH _ H _ _ _ _ _ _ _ _ _ _ eq_refl).
        cbn. destruct IH as [[<-|IH]|IH]; auto.
      * apply andb_true_iff in H. destruct H as [_ H].
        specialize (IH _ H _ _ _ _ _ _ _ _ _ _ eq_refl).
        cbn. exact IH.
Qed.

Lemma run_app a : forall b self,
  run (a ++ b) self =
  match run a self with
  | inl e => inl e
  | inr self' => run b self'
  end.
Proof.
  induction a as [|c a IH]; intros b self; cbn; [reflexivity|].
  destruct (exec self c); [reflexivity | apply IH].
Qed.

Lemma install_app a : forall b self,
  install (a ++ b) self = install b (install a self).
Proof.
  induction a as [|c a IH]; intros b self; cbn; [reflexivity|].
  destruct c; apply IH.
Qed.

Lemma run_install cs : forall self reg,
  run cs self = inr reg -> reg = install cs self.
Proof.
  induction cs as [|c cs IH]; intros self reg H; cbn in H.
  - now injection H as <-.
  - destruct c as [title info|s t dt d ch mm r i]; cbn in H |- *.
    + unfold add_section in H. destruct (find_section self title); [discriminate|].
      now apply IH.
    + unfold add_item in H.
      destruct (add_item_check self s t dt d ch mm); [discriminate|].
      now apply IH.
Qed.


Lemma add_item_with_choices self section title dt default l rounding info sec :
  find_section self section = Some sec ->
  existsb (fun it => item_title it =? title) (sec_items sec) = false ->
  default_in_choices default l = true ->
  add_item self section title dt default (Some l) None rounding info
  = inr (insert_item self section
           (mk_item title dt default (Some l) None rounding info default)).
Proof.
  intros Hs Ht Hd. unfold add_item, add_item_check.
  rewrite Hs, Ht, Hd. reflexivity.
Qed.

Lemma run_calls_before :
  run calls_before [] = inr (install calls_before []).
Proof. vm_compute. reflexivity. Qed.

Lemma video_global_before :
  find_section (install calls_before []) "video.global"
  = Some (mk_section "video.global" "Options for encoding converted videos" []).
Proof. vm_compute. reflexivity. Qed.

Lemma run_calls_after l :
  run calls_after
    (insert_item (install calls_before []) "video.global"
       (mk_item "container" Tstr (VStr "mp4") (Some l) None None
          "Video container to use." (VStr "mp4")))
  = inr (install calls_after
           (insert_item (install calls_before []) "video.global"
              (mk_item "container" Tstr (VStr "mp4") (Some l) None None
                 "Video container to use." (VStr "mp4")))).
Proof. vm_compute. reflexivity. Qed.

Lemma run_cons c cs self :
  run (c :: cs) self
  = match exec self c with inl e => inl e | inr self' => run cs self' end.
Proof. reflexivity. Qed.

Lemma install_cons_item section title dt default choices min_max rounding info
    cs self :
  install (AddItem section title dt default choices min_max rounding info :: cs)
    self
  = install cs
      (insert_item self section
         (mk_item title dt default choices min_max rounding info default)).
Proof. reflexivity. Qed.

Lemma set_defaults_succeeds exts :
  In "mp4" (video_containers exts) ->
  set_defaults exts [] = inr (schema exts).
Proof.
  intros Hmp4. unfold set_defaults, schema.
  rewrite calls_split, run_app, install_app, run_calls_before.
  rewrite run_cons.
  unfold container_call, exec. rewrite install_cons_item.
  rewrite (add_item_with_choices _ _ _ _ _ _ _ _ _ video_global_before).
  - exact (run_calls_after _).
  - reflexivity.
  - now apply str_in_In.
Qed.

Lemma set_defaults_only_schema exts self :
  set_defaults exts [] = inr self -> self = schema exts.
Proof. apply run_install. Qed.

(** C9. The declarations of [set_defaults] meet the preconditions of
    [add_section] and [add_item]: the eight sections have distinct titles,
    every [add_item] names a section registered by an earlier call, no
    [(section, title)] pair is declared twice, and, when ["mp4"] is among
    the choices computed for the video container, the whole sequence runs
    without a schema-definition error. *)
Theorem declarations_meet_preconditions (_video_extensions : list string) :
  length (section_titles (set_defaults_calls _video_extensions)) = 8%nat
  /\ NoDup (section_titles (set_defaults_calls _video_extensions))
  /\ (forall pre section title dt default choices min_max rounding info post,
        set_defaults_calls _video_extensions
        = (pre ++ AddItem section title dt default choices min_max rounding info
               :: post)%list ->
        In section (section_titles pre))
  /\ NoDup (item_pairs (set_defaults_calls _video_extensions))
  /\ (In "mp4" (video_containers _video_extensions) ->
      exists self, set_defaults _video_extensions [] = inr self).
Proof.
  split; [vm_compute; reflexivity|]. split; [|split; [|split]].
  - apply (distinctb_NoDup String.eqb); [apply String.eqb_eq|].
    vm_compute. reflexivity.
  - intros pre s t dt d ch mm r i post E.
    assert (H : sections_first [] (set_defaults_calls _video_extensions) = true)
      by (vm_compute; reflexivity).
    destruct (sections_first_sound _ _ H _ _ _ _ _ _ _ _ _ _ E) as [[]|Hin].
    exact Hin.
  - apply (distinctb_NoDup pair_eqb); [apply pair_eqb_eq|].
    vm_compute. reflexivity.
  - intros Hmp4. exists (schema _video_extensions).
    now apply set_defaults_succeeds.
Qed.

Lemma declarations_meet_preconditions_sample :
  exists self, set_defaults sample_extensions [] = inr self.
Proof.
  apply (declarations_meet_preconditions sample_extensions).
  apply str_in_In. vm_compute. reflexivity.
Defined.

Lemma default_of_container_needs_mp4 exts :
  Forall default_valid (set_defaults_calls exts) ->
  In "mp4" (video_containers exts).
Proof.
  intros H. rewrite calls_split in H. apply Forall_app in H.
  destruct H as [_ H]. inversion H as [|c cs Hc _]; subst.
  destruct Hc as [Hc _]. destruct (Hc _ eq_refl) as [s [E Hs]].
  now injection E as <-.
Qed.

(** ** The registry under [map_items] *)

Lemma map_items_compose f g self :
  map_items f (map_items g self) = map_items (fun s it => f s (g s it)) self.
Proof.
  unfold map_items. rewrite map_map. apply map_ext. intros sec. cbn.
  now rewrite map_map.
Qed.

Lemma map_items_ext f g self :
  (forall s it, f s it = g s it) -> map_items f self = map_items g self.
Proof.
  intros H. unfold map_items. apply map_ext. intros sec. f_equal.
  apply map_ext. intros it. apply H.
Qed.


Lemma find_section_title self s sec :
  find_section self s = Some sec -> sec_title sec = s.
Proof.
  unfold find_section. intros H. apply find_some in H.
  now apply String.eqb_eq.
Qed.

Lemma find_section_map_items f self s :
  find_section (map_items f self) s
  = option_map (fun sec => mk_section (sec_title sec) (sec_info sec)
                             (map (f (sec_title sec)) (sec_items sec)))
      (find_section self s).
Proof.
  unfold find_section, map_items.
  induction self as [|sec self IH]; cbn; [reflexivity|].
  destruct (sec_title sec =? s); [reflexivity | exact IH].
Qed.

Lemma find_map_title (g : item -> item) t its :
  (forall it, item_title (g it) = item_title it) ->
  find (fun it => item_title it =? t) (map g its)
  = option_map g (find (fun it => item_title it =? t) its).
Proof.
  intros H. induction its as [|it its IH]; cbn; [reflexivity|].
  rewrite H. destruct (item_title it =? t); [reflexivity | exact IH].
Qed.

Lemma find_item_map_items f self s t :
  (forall s' it, item_title (f s' it) = item_title it) ->
  find_item (map_items f self) s t = option_map (f s) (find_item self s t).
Proof.
  intros H. unfold find_item. rewrite find_section_map_items.
  destruct (find_section self s) as [sec|] eqn:E; cbn; [|reflexivity].
  rewrite (find_section_title _ _ _ E). now apply find_map_title.
Qed.

Lemma find_item_title self s t it :
  find_item self s t = Some it -> item_title it = t.
Proof.
  unfold find_item. destruct (find_section self s); [|discriminate].
  intros H. apply find_some in H. now apply String.eqb_eq.
Qed.

Lemma find_item_set_value self s t v it :
  find_item self s t = Some it ->
  find_item (set_value self s t v) s t = Some (with_value it v).
Proof.
  intros H. unfold set_value. rewrite find_item_map_items.
  - rewrite H. cbn. rewrite String.eqb_refl, (find_item_title _ _ _ _ H).
    now rewrite String.eqb_refl.
  - intros s' it'. now destruct ((s' =? s) && (item_title it' =? t)).
Qed.

Lemma set_value_twice self s t v w :
  set_value (set_value self s t v) s t w = set_value self s t w.
Proof.
  unfold set_value. rewrite map_items_compose. apply map_items_ext.
  intros s' it. destruct (s' =? s); cbn; [|reflexivity].
  destruct (item_title it =? t) eqn:E; cbn; now rewrite E.
Qed.

Lemma restore_defaults_set_value self s t v :
  restore_defaults (set_value self s t v) = restore_defaults self.
Proof.
  unfold restore_defaults, set_value. rewrite map_items_compose.
  apply map_items_ext. intros s' it.
  now destruct ((s' =? s) && (item_title it =? t)).
Qed.

Lemma validate_with_value it v raw :
  validate (with_value it v) raw = validate it raw.
Proof. reflexivity. Qed.

Lemma set_cases self s t raw :
  fst (set self s t raw) = self
  \/ exists v, fst (set self s t raw) = set_value self s t v.
Proof.
  unfold set. destruct (find_item self s t) as [it|]; [|now left].
  destruct (validate it raw); cbn; eauto.
Qed.

Lemma restore_defaults_set self s t raw :
  restore_defaults (fst (set self s t raw)) = restore_defaults self.
Proof.
  destruct (set_cases self s t raw) as [->|[v ->]];
    [reflexivity | apply restore_defaults_set_value].
Qed.

(** C8. Assigning the same raw value a second time changes nothing: the
    registry, the outcome and the committed value are those of the first
    assignment. *)
Theorem set_is_idempotent (self : registry) (section title : string)
    (raw : value) :
  set (fst (set self section title raw)) section title raw
  = set self section title raw
  /\ get (fst (set (fst (set self section title raw)) section title raw))
       section title
     = get (fst (set self section title raw)) section title.
Proof.
  assert (H : set (fst (set self section title raw)) section title raw
              = set self section title raw).
  { unfold set at 2 3.
    destruct (find_item self section title) as [it|] eqn:F.
    - destruct (validate it raw) as [v|v o|e] eqn:V; cbn [fst].
      + unfold set. rewrite (find_item_set_value _ _ _ v _ F).
        rewrite validate_with_value, V. now rewrite set_value_twice.
      + unfold set. rewrite (find_item_set_value _ _ _ v _ F).
        rewrite validate_with_value, V. now rewrite set_value_twice.
      + unfold set. now rewrite F, V.
    - cbn [fst]. unfold set. now rewrite F. }
  split; [exact H | now rewrite H].
Qed.

(** ** Reachable registries keep the declared schema *)

Lemma restore_defaults_schema exts :
  restore_defaults (schema exts) = schema exts.
Proof. vm_compute. reflexivity. Qed.

Lemma reachable_schema exts self :
  reachable exts self -> restore_defaults self = schema exts.
Proof.
  induction 1 as [self H|self s t raw _ IH].
  - rewrite (set_defaults_only_schema _ _ H). apply restore_defaults_schema.
  - now rewrite restore_defaults_set.
Qed.





Lemma reachable_find exts self s t it0 :
  reachable exts self ->
  find_item (schema exts) s t = Some it0 ->
  exists it, find_item self s t = Some it
             /\ with_value it (item_default it) = it0.
Proof.
  intros R F. rewrite <- (reachable_schema _ _ R) in F.
  unfold restore_defaults in F. rewrite find_item_map_items in F by reflexivity.
  destruct (find_item self s t) as [it|]; [|discriminate].
  exists it. split; [reflexivity|]. cbn in F. congruence.
Qed.


(** ** Equality tests *)



(** ** Choices reject *)

Lemma coerce_str dt raw s : coerce dt raw = Some (VStr s) -> raw = VStr s.
Proof.
  destruct dt, raw as [x|[z|q]|b]; cbn; intros H; try discriminate H;
    now injection H as ->.
Qed.

Lemma validate_non_member it l raw :
  item_choices it = Some l ->
  (forall s, raw = VStr s -> ~ In s l) ->
  exists e, validate it raw = Rejected e.
Proof.
  intros Hc Hraw. unfold validate.
  destruct (coerce (item_datatype it) raw) as [v|] eqn:C; [|eauto].
  rewrite Hc. destruct v as [s|n|b]; cbn; eauto.
  destruct (str_in s l) eqn:M; cbn; eauto.
  apply str_in_In in M. apply coerce_str in C. now apply Hraw in C.
Qed.

Lemma startup_rejects_bilinear exts :
  set (schema exts) "mask.box_blend" "type" (VStr "bilinear")
  = (schema exts, Rejected ChoiceError)
  /\ get (schema exts) "mask.box_blend" "type" = Some (VStr "gaussian")
  /\ option_map item_choices (find_item (schema exts) "mask.box_blend" "type")
     = Some (Some ["gaussian"; "normalized"; "none"]).
Proof. vm_compute. repeat split; reflexivity. Qed.

(** C3. Assigning to an option declared with choices a value that is not one
    of them (the comparison is exact, case included) is rejected with an
    error and leaves the registry, and so the current value, as it was. The
    option [type] of [mask.box_blend] has the choices [gaussian],
    [normalized] and [none] and the default [gaussian]; assigning
    [bilinear] at startup is rejected and the value remains [gaussian]. *)
Theorem choice_violation_is_rejected :
  (forall (self : registry) (section title : string) (it : item)
          (l : list string) (raw : value),
      find_item self section title = Some it ->
      item_choices it = Some l ->
      (forall s, raw = VStr s -> ~ In s l) ->
      exists e,
        set self section title raw = (self, Rejected e)
        /\ report (snd (set self section title raw)) = Some Error
        /\ get (fst (set self section title raw)) section title
           = get self section title)
  /\ (forall (_video_extensions : list string) (self : registry),
        set_defaults _video_extensions [] = inr self ->
        option_map item_choices (find_item self "mask.box_blend" "type")
        = Some (Some ["gaussian"; "normalized"; "none"])
        /\ get self "mask.box_blend" "type" = Some (VStr "gaussian")
        /\ set self "mask.box_blend" "type" (VStr "bilinear")
           = (self, Rejected ChoiceError)
        /\ get (fst (set self "mask.box_blend" "type" (VStr "bilinear")))
             "mask.box_blend" "type" = Some (VStr "gaussian")).
Proof.
  split.
  - intros self section title it l raw F Hc Hraw.
    destruct (validate_non_member it l raw Hc Hraw) as [e V].
    exists e. unfold set. rewrite F, V. cbn. auto.
  - intros exts self H. rewrite (set_defaults_only_schema _ _ H).
    destruct (startup_rejects_bilinear exts) as [S [G C]].
    rewrite S. cbn [fst]. repeat split; assumption.
Qed.

Lemma choice_violation_is_rejected_sample :
  set (schema sample_extensions) "mask.box_blend" "type" (VStr "bilinear")
  = (schema sample_extensions, Rejected ChoiceError).
Proof.
  apply (proj2 choice_violation_is_rejected sample_extensions).
  apply set_defaults_succeeds. apply str_in_In. vm_compute. reflexivity.
Defined.

(** ** Ranges clamp *)













(** ** Declaration order *)

Lemma find_section_app self other s :
  find_section (self ++ other)%list s
  = match find_section self s with
    | Some sec => Some sec
    | None => find_section other s
    end.
Proof.
  unfold find_section. induction self as [|sec self IH]; cbn; [reflexivity|].
  destruct (sec_title sec =? s); [reflexivity | exact IH].
Qed.

Lemma section_items_add_section self title info s :
  section_items (self ++ [mk_section title info []])%list s
  = section_items self s.
Proof.
  unfold section_items. rewrite find_section_app.
  destruct (find_section self s); [reflexivity|].
  unfold find_section. cbn. now destruct (title =? s).
Qed.

Lemma find_section_insert_item self section it s :
  find_section (insert_item self section it) s
  = option_map (fun sec =>
                  if sec_title sec =? section
                  then mk_section (sec_title sec) (sec_info sec)
                         (sec_items sec ++ [it])%list
                  else sec) (find_section self s).
Proof.
  unfold find_section, insert_item.
  induction self as [|sec self IH]; cbn; [reflexivity|].
  destruct (sec_title sec =? section) eqn:E1; cbn;
    (destruct (sec_title sec =? s); [cbn; now rewrite E1 | exact IH]).
Qed.

Lemma section_items_insert_item self section it s sec :
  find_section self section = Some sec ->
  section_items (insert_item self section it) s
  = (section_items self s ++ if section =? s then [it] else [])%list.
Proof.
  intros Hsec. unfold section_items. rewrite find_section_insert_item.
  destruct (find_section self s) as [sec'|] eqn:E; cbn.
  - rewrite (find_section_title _ _ _ E), (String.eqb_sym s section).
    destruct (section =? s); cbn; [reflexivity | now rewrite app_nil_r].
  - destruct (section =? s) eqn:Es; [|reflexivity].
    apply String.eqb_eq in Es. congruence.
Qed.

Lemma add_item_check_section self section title dt default choices min_max :
  add_item_check self section title dt default choices min_max = None ->
  exists sec, find_section self section = Some sec.
Proof.
  unfold add_item_check. destruct (find_section self section) as [sec|];
    [eauto | discriminate].
Qed.

Lemma run_section_items cs : forall self reg s,
  run cs self = inr reg ->
  map item_title (section_items reg s)
  = (map item_title (section_items self s) ++ titles_for s cs)%list.
Proof.
  induction cs as [|c cs IH]; intros self reg s H; cbn in H.
  - injection H as <-. cbn. now rewrite app_nil_r.
  - destruct c as [title info|section t dt d ch mm r i]; cbn in H.
    + unfold add_section in H.
      destruct (find_section self title); [discriminate|].
      rewrite (IH _ _ s H), section_items_add_section. reflexivity.
    + unfold add_item in H.
      destruct (add_item_check self section t dt d ch mm) eqn:C; [discriminate|].
      destruct (add_item_check_section _ _ _ _ _ _ _ C) as [sec E].
      rewrite (IH _ _ s H), (section_items_insert_item _ _ _ _ _ E).
      rewrite map_app, <- app_assoc. f_equal. cbn.
      destruct (section =? s); reflexivity.
Qed.

Lemma section_items_map_items f self s :
  section_items (map_items f self) s = map (f s) (section_items self s).
Proof.
  unfold section_items. rewrite find_section_map_items.
  destruct (find_section self s) as [sec|] eqn:E; cbn; [|reflexivity].
  now rewrite (find_section_title _ _ _ E).
Qed.

Lemma reachable_titles exts self s :
  reachable exts self ->
  map item_title (section_items self s)
  = map item_title (section_items (schema exts) s).
Proof.
  intros R. rewrite <- (reachable_schema _ _ R).
  unfold restore_defaults. rewrite section_items_map_items, map_map.
  reflexivity.
Qed.

Lemma titles_for_libx264 exts :
  titles_for "video.libx264" (set_defaults_calls exts)
  = ["crf"; "preset"; "tune"; "profile"; "level"].
Proof. vm_compute. reflexivity. Qed.

Lemma reachable_started exts self :
  reachable exts self -> set_defaults exts [] = inr (schema exts).
Proof.
  induction 1 as [self H|]; [|assumption].
  now rewrite <- (set_defaults_only_schema _ _ H).
Qed.

(** C5. In every reachable registry [section_items] lists the options of
    [video.libx264] as [crf], [preset], [tune], [profile], [level], and the
    options of any section in the order of the [add_item] calls of
    [set_defaults]; the same holds of any sequence of declarations that
    runs without error. *)
Theorem section_items_in_declaration_order :
  (forall (_video_extensions : list string) (self : registry),
      reachable _video_extensions self ->
      map item_title (section_items self "video.libx264")
      = ["crf"; "preset"; "tune"; "profile"; "level"]
      /\ forall section,
           map item_title (section_items self section)
           = titles_for section (set_defaults_calls _video_extensions))
  /\ (forall (cs : list call) (self : registry),
        run cs [] = inr self ->
        forall section,
          map item_title (section_items self section) = titles_for section cs).
Proof.
  assert (G : forall cs self, run cs [] = inr self ->
              forall section,
                map item_title (section_items self section)
                = titles_for section cs).
  { intros cs self H section. now rewrite (run_section_items _ _ _ section H). }
  split; [|exact G].
  intros exts self R.
  assert (T : forall section,
             map item_title (section_items self section)
             = titles_for section (set_defaults_calls exts)).
  { intros section. rewrite (reachable_titles _ _ _ R).
    apply G. exact (reachable_started _ _ R). }
  split; [|exact T].
  rewrite T. apply titles_for_libx264.
Qed.

Lemma section_items_in_declaration_order_sample :
  map item_title (section_items (schema sample_extensions) "video.libx264")
  = ["crf"; "preset"; "tune"; "profile"; "level"].
Proof.
  apply (proj1 section_items_in_declaration_order sample_extensions).
  apply reach_defaults. apply set_defaults_succeeds.
  apply str_in_In. vm_compute. reflexivity.
Defined.

(** ** The nearest point of a grid *)

Open Scope Q_scope.

Section Nearest.
Variables (s x : Q).
Hypothesis s_pos : 0 < s.






End Nearest.


Close Scope Q_scope.

(** ** Rounding *)
















(** ** Keys and lookups *)





Lemma key_inj_title s t1 t2 : key s t1 = key s t2 -> t1 = t2.
Proof.
  unfold key. induction s as [|c s IH]; cbn; intros H.
  - now injection H.
  - injection H as H. now apply IH.
Qed.











Lemma assign_title k raw s it : item_title (assign k raw s it) = item_title it.
Proof. unfold assign. now destruct (key s (item_title it) =? k). Qed.


(** ** Loading a document *)



Lemma fold_assign_title entries : forall s it,
  item_title (fold_left (fun it' e => assign (fst e) (snd e) s it') entries it)
  = item_title it.
Proof.
  induction entries as [|e entries IH]; intros s it; cbn [fold_left];
    [reflexivity|].
  now rewrite IH, assign_title.
Qed.





(** ** Committed values validate to themselves *)






(** ** What holds of every reachable registry *)











(** ** The registry at work *)

Example distance_is_rounded_to_one_place :
  snd (set (schema sample_extensions) "mask.box_blend" "distance" (VFloat 7.26))
  = Committed (VFloat 7.3).
Proof. vm_compute. reflexivity. Qed.

Example distance_below_range :
  snd (set (schema sample_extensions) "mask.box_blend" "distance" (VFloat 0.05))
  = Clamped (VFloat 0.1) (VFloat 0.05).
Proof. vm_compute. reflexivity. Qed.

Example crf_above_range :
  snd (set (schema sample_extensions) "video.libx264" "crf" (VInt 77))
  = Clamped (VInt 51) (VInt 77).
Proof. vm_compute. reflexivity. Qed.

Example choices_match_case :
  snd (set (schema sample_extensions) "mask.box_blend" "type" (VStr "Gaussian"))
  = Rejected ChoiceError.
Proof. vm_compute. reflexivity. Qed.

Example container_accepts_mkv :
  snd (set (schema sample_extensions) "video.global" "container" (VStr "mkv"))
  = Committed (VStr "mkv").
Proof. vm_compute. reflexivity. Qed.

Example startup_fails_without_mp4 :
  set_defaults [".avi"; ".mkv"] []
  = inl (DefaultNotInChoices "video.global" "container").
Proof. vm_compute. reflexivity. Qed.

Example load_reports_unknown_key :
  snd (load (schema sample_extensions)
         [("video.libx264.crf", VInt 60); ("video.libx264.bitrate", VInt 1)])
  = [Assigned "video.libx264.crf" (Clamped (VInt 51) (VInt 60));
     UnknownKey "video.libx264.bitrate"].
Proof. vm_compute. reflexivity. Qed.

(** * Further properties *)

(** ** Replacement in strings *)

Lemma prefix_split old : forall s,
  prefix old s = true -> s = old ++ drop (String.length old) s.
Proof.
  induction old as [|a old IH]; intros s H; [reflexivity|].
  destruct s as [|b s]; [discriminate|]. cbn in H |- *.
  destruct (ascii_dec a b) as [->|]; [|discriminate].
  f_equal. now apply IH.
Qed.

Lemma replace_from_drop k : forall s old new,
  replace_from k s old new = replace_from 0 (drop k s) old new.
Proof.
  induction k as [|k IH]; intros s old new; [reflexivity|].
  destruct s as [|c s]; [reflexivity|]. cbn [replace_from drop]. apply IH.
Qed.

(** The scan of [replace_from] is the leftmost, non-overlapping
    replacement. *)
Lemma replace_from_step c s old new :
  old <> EmptyString ->
  replace_from 0 (String c s) old new
  = if prefix old (String c s)
    then new ++ replace_from 0 (drop (String.length old) (String c s)) old new
    else String c (replace_from 0 s old new).
Proof.
  intros Hold. cbn [replace_from].
  destruct (prefix old (String c s)); [|reflexivity].
  rewrite replace_from_drop. destruct old as [|a old]; [congruence|].
  cbn [String.length Nat.sub drop]. now rewrite Nat.sub_0_r.
Qed.

Lemma length_drop n : forall s,
  String.length (drop n s) = (String.length s - n)%nat.
Proof.
  induction n as [|n IH]; intros s; cbn; [lia|].
  destruct s as [|c s]; cbn; [reflexivity | apply IH].
Qed.

(** X7. [s.replace(old, new)] returns [s] unchanged when the non-empty
    [old] occurs nowhere in [s]. *)
Theorem replace_absent (s old new : string) :
  old <> EmptyString ->
  absent old s = true ->
  str_replace s old new = s.
Proof.
  intros Hold. unfold str_replace. destruct old as [|a old]; [congruence|].
  induction s as [|c s IH]; intros H; [reflexivity|].
  rewrite replace_from_step by discriminate.
  cbn [absent] in H. apply andb_true_iff in H. destruct H as [H1 H2].
  apply negb_true_iff in H1. rewrite H1. f_equal. now apply IH.
Qed.

Lemma interleave_empty s : interleave s EmptyString = s.
Proof. induction s as [|c s IH]; cbn; [reflexivity | now rewrite IH]. Qed.

(** X8. [s.replace(old, old)] returns [s], for every [s] and every [old],
    the empty string included. *)
Theorem replace_by_itself (s old : string) : str_replace s old old = s.
Proof.
  unfold str_replace. destruct old as [|a old].
  - apply interleave_empty.
  - remember (String a old) as o eqn:Eo.
    assert (Hne : o <> EmptyString) by (subst; discriminate).
    assert (G : forall n s, (String.length s <= n)%nat ->
                            replace_from 0 s o o = s).
    { induction n as [|n IH]; intros s' L.
      - destruct s'; [reflexivity | cbn in L; lia].
      - destruct s' as [|c s']; [reflexivity|].
        rewrite replace_from_step by assumption.
        destruct (prefix o (String c s')) eqn:P.
        + rewrite IH.
          * symmetry. now apply prefix_split.
          * rewrite length_drop. subst o. cbn in L |- *. lia.
        + f_equal. apply IH. cbn in L. lia. }
    now apply (G (String.length s)).
Qed.


(** ** Dots *)

Lemma remove_char_absent_id c s :
  absent (String c EmptyString) s = true -> remove_char c s = s.
Proof.
  induction s as [|a s IH]; cbn; [reflexivity|].
  rewrite andb_true_iff, negb_true_iff. intros [H1 H2].
  destruct (ascii_dec c a) as [->|N].
  - destruct s; discriminate.
  - destruct (Ascii.eqb a c) eqn:E.
    + apply Ascii.eqb_eq in E. congruence.
    + f_equal. now apply IH.
Qed.

Lemma absent_remove_char c s :
  absent (String c EmptyString) (remove_char c s) = true.
Proof.
  induction s as [|a s IH]; cbn; [reflexivity|].
  destruct (Ascii.eqb a c) eqn:E; [exact IH|].
  cbn. rewrite IH, andb_true_r.
  destruct (ascii_dec c a) as [->|N]; [|reflexivity].
  now rewrite Ascii.eqb_refl in E.
Qed.

Lemma length_remove_char c s :
  (String.length (remove_char c s) <= String.length s)%nat.
Proof.
  induction s as [|a s IH]; cbn; [lia|].
  destruct (Ascii.eqb a c); cbn; lia.
Qed.

Lemma replace_char_remove c s :
  str_replace s (String c EmptyString) EmptyString = remove_char c s.
Proof.
  unfold str_replace. induction s as [|a s IH]; [reflexivity|].
  rewrite replace_from_step by discriminate. cbn [prefix remove_char].
  destruct (ascii_dec c a) as [->|N].
  - rewrite Ascii.eqb_refl.
    replace (prefix EmptyString s) with true by (destruct s; reflexivity).
    cbn [String.length drop String.append]. exact IH.
  - destruct (Ascii.eqb a c) eqn:E.
    + apply Ascii.eqb_eq in E. congruence.
    + now rewrite IH.
Qed.

Lemma Forall2_map_r {A B : Type} (f : A -> B) (P : A -> B -> Prop) (l : list A) :
  (forall a, In a l -> P a (f a)) -> Forall2 P l (map f l).
Proof.
  induction l as [|a l IH]; intros H; cbn; constructor.
  - apply H. now left.
  - apply IH. intros b Hb. apply H. now right.
Qed.

(** X9. Removing the dots a second time changes nothing: the choices
    computed from the choices are the choices. Position by position a choice
    is no longer than its extension, and equal to it exactly when the
    extension holds no dot. *)
Theorem stripping_dots_is_idempotent (_video_extensions : list string) :
  video_containers (video_containers _video_extensions)
  = video_containers _video_extensions
  /\ Forall2 (fun ext choice =>
                (String.length choice <= String.length ext)%nat
                /\ (choice = ext <-> absent "." ext = true))
       _video_extensions (video_containers _video_extensions).
Proof.
  split.
  - rewrite !video_containers_remove, map_map. apply map_ext. intros ext.
    apply remove_char_absent_id, absent_remove_char.
  - rewrite video_containers_remove. apply Forall2_map_r. intros ext _.
    split; [apply length_remove_char|]. split.
    + intros E. rewrite <- E. apply absent_remove_char.
    + apply remove_char_absent_id.
Qed.

(** ** The declarations, option by option *)

(** X1. The defaults that [set_defaults] declares all satisfy their
    constraints exactly when some entry of [_video_extensions] reads [mp4]
    once its dots are removed: the default of the video container is the one
    default that depends on the extensions. *)
Theorem defaults_valid_iff_mp4 (_video_extensions : list string) :
  Forall default_valid (set_defaults_calls _video_extensions)
  <-> exists ext, In ext _video_extensions /\ remove_char "." ext = "mp4".
Proof.
  split.
  - intros H. apply default_of_container_needs_mp4 in H.
    rewrite video_containers_remove in H. apply in_map_iff in H.
    destruct H as [ext [E Hin]]. eauto.
  - intros [ext [Hin E]].
    assert (M : In "mp4" (video_containers _video_extensions)).
    { rewrite video_containers_remove, <- E. now apply in_map. }
    rewrite calls_split. apply Forall_app. split; [|constructor].
    + apply Forall_default_valid. vm_compute. reflexivity.
    + apply default_validb_sound. unfold container_call, default_validb.
      rewrite andb_true_r. now apply str_in_In.
    + apply Forall_default_valid. vm_compute. reflexivity.
Qed.

Lemma well_typedb_sound c : well_typedb c = true -> well_typed c.
Proof.
  destruct c as [|s t dt d ch mm r i]; cbn; [trivial|].
  destruct dt, d as [x|[z|q]|b], ch as [l|], mm as [[[lo|lo] [hi|hi]]|],
    r as [r|]; cbn; intros H; try discriminate H.
  - repeat split; eauto.
  - apply andb_true_iff in H. destruct H as [H1 H2].
    apply Z.ltb_lt in H1, H2. exists z, lo, hi, r. repeat split; assumption.
  - apply andb_true_iff in H. destruct H as [H1 H2].
    apply negb_true_iff in H1. apply Z.ltb_lt in H2.
    exists q, lo, hi, r. repeat split; try assumption.
    apply Qnot_le_lt. intros L. apply Qle_bool_iff in L. congruence.
  - repeat split; eauto.
Qed.

(** X2. Every option is declared with a default and constraints of its own
    datatype: a [str] option has a [str] default and choices, and neither
    range nor rounding; a [bool] option has a [bool] default and no
    constraint; an [int] or [float] option has a default and a range of its
    own kind, the lower bound strictly below the upper, a positive rounding
    and no choices. *)
Theorem declarations_are_well_typed (_video_extensions : list string) :
  Forall well_typed (set_defaults_calls _video_extensions).
Proof.
  apply Forall_forall. intros c Hc. apply well_typedb_sound.
  revert c Hc. apply forallb_forall. vm_compute. reflexivity.
Qed.

Lemma choices_listedb_sound c : choices_listedb c = true -> choices_listed c.
Proof.
  destruct c as [|s t dt d ch mm r i]; cbn; [trivial|].
  intros H l -> N. apply orb_true_iff in H. destruct H as [H|H].
  - apply pair_eqb_eq in H. congruence.
  - apply andb_true_iff in H. destruct H as [H1 H2]. split.
    + now destruct l.
    + apply (distinctb_NoDup String.eqb); [apply String.eqb_eq | assumption].
Qed.

(** X3. Every list of choices written out in [set_defaults] (all but the
    computed choices of the video container) is not empty and names no
    choice twice. *)
Theorem written_choices_are_distinct (_video_extensions : list string) :
  Forall choices_listed (set_defaults_calls _video_extensions).
Proof.
  apply Forall_forall. intros c Hc. apply choices_listedb_sound.
  revert c Hc. apply forallb_forall. vm_compute. reflexivity.
Qed.

Lemma dotted_strip ext name :
  ext = String "." name -> absent "." name = true ->
  remove_char "." ext = name.
Proof.
  intros -> H. cbn. now apply remove_char_absent_id.
Qed.

Lemma NoDup_map_dotted exts :
  NoDup exts -> Forall dotted exts -> NoDup (map (remove_char ".") exts).
Proof.
  induction exts as [|ext exts IH]; intros N D; cbn; [constructor|].
  inversion N as [|? ? Hx Hl]; subst. inversion D as [|? ? Hd Hds]; subst.
  constructor; [|now apply IH].
  intros Hin. apply in_map_iff in Hin. destruct Hin as [ext' [E Hin']].
  apply Hx. rewrite Forall_forall in Hds.
  destruct Hd as [name [E1 A1]], (Hds _ Hin') as [name' [E2 A2]].
  rewrite (dotted_strip _ _ E1 A1), (dotted_strip _ _ E2 A2) in E.
  subst. exact Hin'.
Qed.

(** X4. When the entries of [_video_extensions] are distinct and each is a
    dot followed by a name without dots, the choices of the video container
    are distinct too, and they are exactly the names: [name] is a choice if
    and only if [.name] is an extension. *)
Theorem container_choices_are_distinct (_video_extensions : list string) :
  NoDup _video_extensions ->
  Forall dotted _video_extensions ->
  exists l,
    declared_choices (set_defaults_calls _video_extensions)
      "video.global" "container" = Some l
    /\ NoDup l
    /\ forall name, In name l <-> In (String "." name) _video_extensions.
Proof.
  intros N D. exists (video_containers _video_extensions).
  split; [reflexivity|]. rewrite video_containers_remove.
  split; [now apply NoDup_map_dotted|].
  intros name. rewrite Forall_forall in D. split.
  - intros H. apply in_map_iff in H. destruct H as [ext [E Hin]].
    destruct (D _ Hin) as [name' [E' A]].
    rewrite (dotted_strip _ _ E' A) in E. now subst.
  - intros H. apply in_map_iff. exists (String "." name). split; [|assumption].
    destruct (D _ H) as [name' [E' A]]. injection E' as E'. subst name'.
    exact (dotted_strip _ name eq_refl A).
Qed.

Lemma sample_extensions_dotted : Forall dotted sample_extensions.
Proof.
  repeat constructor;
    (eexists; split; [reflexivity | vm_compute; reflexivity]).
Qed.

Lemma container_choices_are_distinct_sample :
  exists l,
    declared_choices (set_defaults_calls sample_extensions)
      "video.global" "container" = Some l
    /\ NoDup l
    /\ forall name, In name l <-> In (String "." name) sample_extensions.
Proof.
  apply (container_choices_are_distinct sample_extensions).
  - apply (distinctb_NoDup String.eqb); [apply String.eqb_eq|].
    vm_compute. reflexivity.
  - apply sample_extensions_dotted.
Defined.

Lemma last_cons {A : Type} (x d : A) (l : list A) :
  last (x :: l) d = last l x.
Proof.
  revert x d. induction l as [|y l IH]; intros x d; [reflexivity|].
  change (last (x :: y :: l) d) with (last (y :: l) d).
  now rewrite (IH y d), (IH y x).
Qed.

Lemma in_blocks_sound cs : forall current,
  in_blocks current cs = true ->
  forall pre s t dt d ch mm r i post,
    cs = (pre ++ AddItem s t dt d ch mm r i :: post)%list ->
    last (map Some (section_titles pre)) current = Some s.
Proof.
  induction cs as [|c cs IH]; intros current H pre s t dt d ch mm r i post E.
  - destruct pre; discriminate E.
  - destruct pre as [|p pre]; cbn in E; injection E as -> ->.
    + cbn in H |- *. destruct current as [title|]; [|discriminate].
      apply andb_true_iff in H. destruct H as [H _].
      apply String.eqb_eq in H. now subst.
    + destruct p as [title info|s' t' dt' d' ch' mm' r' i']; cbn in H.
      * cbn [section_titles flat_map app map]. rewrite last_cons.
        exact (IH _ H _ _ _ _ _ _ _ _ _ _ eq_refl).
      * destruct current as [title|]; [|discriminate].
        apply andb_true_iff in H. destruct H as [_ H].
        exact (IH _ H _ _ _ _ _ _ _ _ _ _ eq_refl).
Qed.

(** X5. The declarations come in blocks: every [add_item] call names the
    section that the latest [add_section] call before it registered, and
    every section that is registered is given at least one option. *)
Theorem declarations_come_in_blocks (_video_extensions : list string) :
  (forall pre section title dt default choices min_max rounding info post,
      set_defaults_calls _video_extensions
      = (pre ++ AddItem section title dt default choices min_max rounding info
             :: post)%list ->
      latest_section pre = Some section)
  /\ Forall (fun section =>
               titles_for section (set_defaults_calls _video_extensions) <> [])
       (section_titles (set_defaults_calls _video_extensions)).
Proof.
  split.
  - intros pre s t dt d ch mm r i post E.
    assert (H : in_blocks None (set_defaults_calls _video_extensions) = true)
      by (vm_compute; reflexivity).
    exact (in_blocks_sound _ _ H _ _ _ _ _ _ _ _ _ _ E).
  - apply Forall_forall. intros s Hs.
    assert (H : forallb (fun s => negb (match titles_for s
                                          (set_defaults_calls _video_extensions)
                                        with [] => true | _ => false end))
                  (section_titles (set_defaults_calls _video_extensions))
                = true) by (vm_compute; reflexivity).
    rewrite forallb_forall in H. specialize (H s Hs).
    intros E. rewrite E in H. discriminate H.
Qed.

(** X6. Every codec offered by [codec] of [video.global] has a section of
    its own, [video.] followed by the codec, which declares an integer [crf]
    with the range [(0, 51)] and rounding [1], a [preset] with the same nine
    choices and the default [medium], and a [tune] with the default [none]
    whose choices are among those of [libx264]. *)
Theorem every_codec_has_its_section (_video_extensions : list string) :
  exists codecs,
    declared_choices (set_defaults_calls _video_extensions)
      "video.global" "codec" = Some codecs
    /\ Forall
         (fun codec =>
            In ("video." ++ codec)
              (section_titles (set_defaults_calls _video_extensions))
            /\ (exists d,
                  declaration (set_defaults_calls _video_extensions)
                    ("video." ++ codec) "crf"
                  = Some (Tint, VInt d, None, Some (Int 0, Int 51), Some 1%Z))
            /\ declaration (set_defaults_calls _video_extensions)
                 ("video." ++ codec) "preset"
               = Some (Tstr, VStr "medium",
                       Some ["ultrafast"; "superfast"; "veryfast"; "faster";
                             "fast"; "medium"; "slow"; "slower"; "veryslow"],
                       None, None)
            /\ (exists tunes,
                  declaration (set_defaults_calls _video_extensions)
                    ("video." ++ codec) "tune"
                  = Some (Tstr, VStr "none", Some tunes, None, None)
                  /\ incl tunes ["none"; "film"; "animation"; "grain";
                                 "stillimage"; "fastdecode"; "zerolatency"]))
         codecs.
Proof.
  exists ["libx264"; "libx265"]. split; [vm_compute; reflexivity|].
  constructor; [|constructor; [|constructor]].
  - split; [apply str_in_In; vm_compute; reflexivity|].
    split; [eexists; vm_compute; reflexivity|].
    split; [vm_compute; reflexivity|].
    eexists. split; [vm_compute; reflexivity|]. apply incl_refl.
  - split; [apply str_in_In; vm_compute; reflexivity|].
    split; [eexists; vm_compute; reflexivity|].
    split; [vm_compute; reflexivity|].
    eexists. split; [vm_compute; reflexivity|].
    intros x H. apply str_in_In.
    repeat (destruct H as [<-|H]; [vm_compute; reflexivity|]).
    destruct H.
Qed.

Lemma replace_absent_sample : str_replace "mp4" "." "-" = "mp4".
Proof.
  apply replace_absent; [discriminate | vm_compute; reflexivity].
Defined.
